(** * Contact form of the tour-business site: validation and submission

    A shallow embedding of the [Contact] page component
    (state hooks [formData] / [errors], the handlers [handleChange],
    [validateForm] and [handleSubmit], and the state-dependent part of
    what the form renders) together with the JavaScript
    primitives these handlers rely on: [String.prototype.trim], string
    truthiness and [RegExp.prototype.test] for the pattern
    [/\S+@\S+\.\S+/]. *)

From Stdlib Require Import NArith Ascii String.
From stdpp Require Import base option list strings gmap fin_maps.

Local Open Scope N_scope.

(** ** JavaScript strings

    A JavaScript string is a finite sequence of UTF-16 code units.  A code
    unit is kept as its numeric value. *)

Module JS.

Definition jsstring : Type := list N.

(** A string literal of the source (all of them are ASCII). *)
Fixpoint lit (s : string) : jsstring :=
  match s with
  | EmptyString => []
  | String c s' => N_of_ascii c :: lit s'
  end.

(** ECMAScript [WhiteSpace] and [LineTerminator] code points; this is the
    set stripped by [trim] and the set matched by the class escape [\s]
    (so [\S] is its complement). *)
Definition is_space (c : N) : bool :=
  (c =? 9) || (c =? 10) || (c =? 11) || (c =? 12) || (c =? 13) ||
  (c =? 32) || (c =? 160) || (c =? 5760) ||
  ((8192 <=? c) && (c <=? 8202)) ||
  (c =? 8232) || (c =? 8233) || (c =? 8239) || (c =? 8287) ||
  (c =? 12288) || (c =? 65279).

(** [String.prototype.trimStart], [trimEnd] and [trim]. *)
Fixpoint trimStart (s : jsstring) : jsstring :=
  match s with
  | [] => []
  | c :: s' => if is_space c then trimStart s' else s
  end.

Definition trimEnd (s : jsstring) : jsstring :=
  reverse (trimStart (reverse s)).

Definition trim (s : jsstring) : jsstring := trimEnd (trimStart s).

(** [ToBoolean] on a string: only the empty string is falsy. *)
Definition truthy (s : jsstring) : bool :=
  match s with
  | [] => false
  | _ :: _ => true
  end.

(** [ToBoolean] on a property read: a missing property reads [undefined]. *)
Definition truthy_prop (v : option jsstring) : bool :=
  match v with
  | None => false
  | Some s => truthy s
  end.

(** ** The regular-expression fragment used by the form

    Patterns are sequences of terms; a term is an atom or a greedy [+]
    repetition of an atom; an atom is a literal code unit or [\S]. *)

Inductive atom : Type :=
| Lit (c : N)
| NonSpace.

Inductive term : Type :=
| Once (a : atom)
| Plus (a : atom).

Definition regex : Type := list term.

Definition atom_matches (a : atom) (c : N) : bool :=
  match a with
  | Lit d => c =? d
  | NonSpace => negb (is_space c)
  end.

(** Backtracking matcher in continuation style.  [match_plus a k s] has to
    consume at least one code unit; being greedy it first tries to consume
    more, and falls back to the continuation [k]. *)
Fixpoint match_plus (a : atom) (k : jsstring -> bool) (s : jsstring) : bool :=
  match s with
  | [] => false
  | c :: s' => atom_matches a c && (match_plus a k s' || k s')
  end.

Fixpoint match_here (r : regex) (s : jsstring) : bool :=
  match r with
  | [] => true
  | Once a :: r' =>
      match s with
      | [] => false
      | c :: s' => atom_matches a c && match_here r' s'
      end
  | Plus a :: r' => match_plus a (match_here r') s
  end.

(** [RegExp.prototype.test] for a pattern without the [g] or [y] flag: the
    match is attempted at index 0, then 1, ... up to the length of the
    input, and the first success ends the search. *)
Fixpoint test (r : regex) (s : jsstring) : bool :=
  match_here r s ||
  match s with
  | [] => false
  | _ :: s' => test r s'
  end.

End JS.

Export JS.

(** ** Data model of the [Contact] component *)

(** [interface ContactFormData]: four string properties. *)
Record ContactFormData : Type := mkForm {
  name : jsstring;
  email : jsstring;
  subject : jsstring;
  message : jsstring
}.

(** [keyof ContactFormData]: the [name] attribute of the four controls that
    are wired to [handleChange]. *)
Inductive Field : Type := FName | FEmail | FSubject | FMessage.

(** The property name a field stands for. *)
Definition key (f : Field) : string :=
  match f with
  | FName => "name"
  | FEmail => "email"
  | FSubject => "subject"
  | FMessage => "message"
  end.

(** Property read [formData[f]]. *)
Definition get_field (d : ContactFormData) (f : Field) : jsstring :=
  match f with
  | FName => name d
  | FEmail => email d
  | FSubject => subject d
  | FMessage => message d
  end.

(** Object spread with one computed property: [{ ...prev, [f]: value }]. *)
Definition set_field (prev : ContactFormData) (f : Field) (value : jsstring)
  : ContactFormData :=
  match f with
  | FName => mkForm value (email prev) (subject prev) (message prev)
  | FEmail => mkForm (name prev) value (subject prev) (message prev)
  | FSubject => mkForm (name prev) (email prev) value (message prev)
  | FMessage => mkForm (name prev) (email prev) (subject prev) value
  end.

(** [Partial<ContactFormData>]: an object holding any subset of the four
    properties, used as a map from property name to message. *)
Abbreviation Errors := (gmap string jsstring).

(** [Object.keys(o)].  Only the number of keys is observed by the component,
    so the enumeration order of the map is immaterial. *)
Definition Object_keys (o : Errors) : list string := (map_to_list o).*1.

(** The two [useState] cells of the component. *)
Record State : Type := mkState {
  formData : ContactFormData;
  errors : Errors
}.

Definition emptyForm : ContactFormData := mkForm [] [] [] [].

(** State at mount: [useState({name: "", ...})] and [useState({})]. *)
Definition initial : State := mkState emptyForm ∅.

(** Observable effects of a handler other than state updates. *)
Inductive effect : Type :=
| PreventDefault
| ConsoleLog (d : ContactFormData)
| ToastSuccess (msg : jsstring).

(** ** Event handlers

    A handler is a closure created during a render: it reads the state of
    that render (its snapshot) and queues updates that are applied, in
    order, to the pending state.  [Pending] carries the pending state and
    the effects emitted so far. *)
Record Pending : Type := mkPending {
  next : State;
  trace : list effect
}.

Definition Handler (A : Type) : Type := State -> Pending -> A * Pending.

#[global] Instance handler_ret : MRet Handler :=
  λ A (x : A), λ _ p, (x, p).

#[global] Instance handler_bind : MBind Handler :=
  λ A B (f : A -> Handler B) (m : Handler A),
    λ snap p, let '(x, p') := m snap p in f x snap p'.

(** The closure variables [formData] and [errors]. *)
Definition read_formData : Handler ContactFormData :=
  λ snap p, (formData snap, p).

Definition read_errors : Handler Errors :=
  λ snap p, (errors snap, p).

(** [setFormData(updater)] and [setErrors(updater)]; a plain value [v] is
    the updater [λ _, v]. *)
Definition setFormData (u : ContactFormData -> ContactFormData) : Handler unit :=
  λ _ p, (tt, mkPending (mkState (u (formData (next p))) (errors (next p))) (trace p)).

Definition setErrors (u : Errors -> Errors) : Handler unit :=
  λ _ p, (tt, mkPending (mkState (formData (next p)) (u (errors (next p)))) (trace p)).

Definition emit (e : effect) : Handler unit :=
  λ _ p, (tt, mkPending (next p) (trace p ++ [e])).

(** The pattern [/\S+@\S+\.\S+/] (64 is '@', 46 is '.'). *)
Definition email_re : regex :=
  [Plus NonSpace; Once (Lit 64); Plus NonSpace; Once (Lit 46); Plus NonSpace].

Definition success_message : jsstring :=
  lit "Thank you for your message! We will get back to you soon.".

(** [handleChange]: [target_name] and [value] are the two properties read
    from [e.target]. *)
Definition handleChange (target_name : Field) (value : jsstring) : Handler unit :=
  setFormData (λ prev, set_field prev target_name value);;
  errors ← read_errors;
  if truthy_prop (errors !! key target_name) then
    setErrors (λ prev, let newErrors := prev in delete (key target_name) newErrors)
  else
    mret tt.

(** [validateForm]. *)
Definition validateForm : Handler bool :=
  formData ← read_formData;
  let newErrors : Errors := ∅ in
  let newErrors :=
    if negb (truthy (trim (name formData)))
    then <["name" := lit "Name is required"]> newErrors
    else newErrors in
  let newErrors :=
    if negb (truthy (trim (email formData)))
    then <["email" := lit "Email is required"]> newErrors
    else if negb (test email_re (email formData))
    then <["email" := lit "Email is not valid"]> newErrors
    else newErrors in
  let newErrors :=
    if negb (truthy (trim (subject formData)))
    then <["subject" := lit "Subject is required"]> newErrors
    else newErrors in
  let newErrors :=
    if negb (truthy (trim (message formData)))
    then <["message" := lit "Message is required"]> newErrors
    else newErrors in
  setErrors (λ _, newErrors);;
  mret (bool_decide (length (Object_keys newErrors) = 0%nat)).

(** [handleSubmit]. *)
Definition handleSubmit : Handler unit :=
  emit PreventDefault;;
  ok ← validateForm;
  if ok : bool then
    (formData ← read_formData;
     emit (ConsoleLog formData);;
     emit (ToastSuccess success_message);;
     setFormData (λ _, mkForm [] [] [] []))
  else
    mret tt.

(** Running a handler for one event: it starts from the rendered state with
    nothing pending, and the pending state becomes the next rendered one. *)
Definition dispatch {A : Type} (h : Handler A) (s : State) : A * State * list effect :=
  let '(x, p) := h s (mkPending s []) in (x, next p, trace p).

(** The two kinds of event the form reacts to. *)
Inductive event : Type :=
| Change (target_name : Field) (value : jsstring)
| Submit.

Definition step (s : State) (ev : event) : State * list effect :=
  match ev with
  | Change f v => let '(_, s', t) := dispatch (handleChange f v) s in (s', t)
  | Submit => let '(_, s', t) := dispatch handleSubmit s in (s', t)
  end.

(** A whole session: the events are handled one after the other. *)
Fixpoint run (s : State) (evs : list event) : State * list effect :=
  match evs with
  | [] => (s, [])
  | ev :: evs' =>
      let '(s1, t1) := step s ev in
      let '(s2, t2) := run s1 evs' in
      (s2, t1 ++ t2)
  end.

(** States the mounted component can be in. *)
Inductive reachable : State -> Prop :=
| reachable_initial : reachable initial
| reachable_step s ev : reachable s -> reachable (step s ev).1.

(** The messages handed to the notification sink [toast.success]. *)
Fixpoint toasts (t : list effect) : list jsstring :=
  match t with
  | [] => []
  | ToastSuccess msg :: t' => msg :: toasts t'
  | _ :: t' => toasts t'
  end.

(** The [value] attributes of the [<option>]s of the subject [<select>]. *)
Definition subject_options : list jsstring :=
  [lit ""; lit "tour"; lit "exhibition"; lit "custom"; lit "general"; lit "other"].

(** The outcome of the validation pass on the form [d] when the component
    currently shows the errors [e]: the boolean returned by [validateForm]
    and the error object it installs. *)
Definition validate (d : ContactFormData) (e : Errors) : bool * Errors :=
  let '(ok, s', _) := dispatch validateForm (mkState d e) in (ok, errors s').

(** ** Reference notions the handlers are compared with *)

(** Declarative meaning of a pattern: the words it matches in full. *)
Fixpoint denote (r : regex) (w : jsstring) : Prop :=
  match r with
  | [] => w = []
  | Once a :: r' =>
      ∃ c w', w = c :: w' ∧ atom_matches a c = true ∧ denote r' w'
  | Plus a :: r' =>
      ∃ u w', w = u ++ w' ∧ u ≠ [] ∧
              Forall (λ c, atom_matches a c = true) u ∧ denote r' w'
  end.

(** A value that is blank: empty or made of white space only. *)
Definition blank (v : jsstring) : Prop := Forall (λ c, is_space c = true) v.

(** "At least one non-whitespace character". *)
Definition nonspace_run (u : jsstring) : Prop :=
  u ≠ [] ∧ Forall (λ c, is_space c = false) u.

(** The minimal email shape, read on a whole word: non-whitespace run,
    '@', non-whitespace run, '.', non-whitespace run. *)
Definition email_shape (w : jsstring) : Prop :=
  ∃ a b c, nonspace_run a ∧ nonspace_run b ∧ nonspace_run c ∧
           w = a ++ [64] ++ b ++ [46] ++ c.

(** A value matches the pattern when some part of it has the email shape
    (this is what matching an unanchored pattern means). *)
Definition matches_email_pattern (v : jsstring) : Prop :=
  ∃ pre w post, email_shape w ∧ v = pre ++ w ++ post.

(** The validation rules as the specification words them:
    [fails_with f d msg] says that field [f] of the form [d] fails its rule
    with message [msg]. *)
Definition fails_with (f : Field) (d : ContactFormData) (msg : jsstring) : Prop :=
  match f with
  | FName => trim (name d) = [] ∧ msg = lit "Name is required"
  | FEmail =>
      (trim (email d) = [] ∧ msg = lit "Email is required") ∨
      (trim (email d) ≠ [] ∧ ¬ matches_email_pattern (email d) ∧
       msg = lit "Email is not valid")
  | FSubject => trim (subject d) = [] ∧ msg = lit "Subject is required"
  | FMessage => trim (message d) = [] ∧ msg = lit "Message is required"
  end.

(** ** Sample forms and sessions used to exercise the handlers *)

Definition form_complete : ContactFormData :=
  mkForm (lit "Li") (lit "li@example.cn") (lit "tour") (lit "Two days in Beijing").

Definition form_incomplete : ContactFormData :=
  mkForm (lit "Li") (lit "li@example") (lit " ") (lit "Two days in Beijing").

(** A complete form still showing an error from an earlier attempt. *)
Definition state_complete : State :=
  mkState form_complete {["email" := lit "Email is required"]}.

Definition state_incomplete : State := mkState form_incomplete ∅.

(** The state after submitting the untouched form: all four fields are
    flagged. *)
Definition state_all_flagged : State := (step initial Submit).1.

(** A short session: a malformed email is typed, the form is submitted,
    then a blank name is typed. *)
Definition session_blank_name : list event :=
  [Change FEmail (lit "li@example"); Submit; Change FName (lit " ")].

(** ** What the form renders from its state

    Each of the four controls is rendered with its [name] attribute, the
    [value] it is bound to, a class list that depends on the error object, and
    an error paragraph [{errors.f && <p>{errors.f}</p>}] after it.  The class
    combinator [cn] comes from the project's utility module and is kept
    abstract. *)
Record Control : Type := mkControl {
  control_name : string;
  control_value : jsstring;
  control_className : jsstring;
  control_error : option jsstring
}.

Definition class_base : jsstring :=
  lit "w-full px-4 py-3 rounded-lg border focus:ring-2 focus:outline-none transition-colors".

Definition class_flagged : jsstring := lit "border-red-500 focus:ring-red-600".

Definition class_plain : jsstring :=
  lit "border-gray-300 focus:ring-red-600 focus:border-red-600".

Definition render_control (cn : list jsstring -> jsstring) (s : State) (f : Field)
  : Control :=
  mkControl
    (key f)
    (get_field (formData s) f)
    (cn [class_base;
         if truthy_prop (errors s !! key f) then class_flagged else class_plain])
    (match errors s !! key f with
     | Some m => if truthy m then Some m else None
     | None => None
     end).

(** The controls in document order. *)
Definition render_form (cn : list jsstring -> jsstring) (s : State) : list Control :=
  [render_control cn s FName; render_control cn s FEmail;
   render_control cn s FSubject; render_control cn s FMessage].

(** Events the rendered controls can fire: the subject control is a
    [<select>], so the value of its change event is the [value] of one of
    its options; the text controls can report any string. *)
Definition control_event (ev : event) : Prop :=
  match ev with
  | Change FSubject v => v ∈ subject_options
  | _ => True
  end.

(** ** Counting over sessions and traces *)

Fixpoint changes (evs : list event) : nat :=
  match evs with
  | [] => 0%nat
  | Change _ _ :: evs' => S (changes evs')
  | Submit :: evs' => changes evs'
  end.

Fixpoint submits (evs : list event) : nat :=
  match evs with
  | [] => 0%nat
  | Submit :: evs' => S (submits evs')
  | Change _ _ :: evs' => submits evs'
  end.

Fixpoint prevented (t : list effect) : nat :=
  match t with
  | [] => 0%nat
  | PreventDefault :: t' => S (prevented t')
  | _ :: t' => prevented t'
  end.

(** The forms handed to [console.log]. *)
Fixpoint logged (t : list effect) : list ContactFormData :=
  match t with
  | [] => []
  | ConsoleLog d :: t' => d :: logged t'
  | _ :: t' => logged t'
  end.

(** Number of fields whose value survives the [trim] test. *)
Definition filled (d : ContactFormData) : nat :=
  (Nat.b2n (truthy (trim (name d))) + Nat.b2n (truthy (trim (email d))) +
   Nat.b2n (truthy (trim (subject d))) + Nat.b2n (truthy (trim (message d))))%nat.

(** The error object that flags the four fields as missing. *)
Definition all_required : Errors :=
  <["name" := lit "Name is required"]>
    (<["email" := lit "Email is required"]>
       (<["subject" := lit "Subject is required"]>
          {["message" := lit "Message is required"]})).

(** * Properties *)

(** ** Trimming *)

Section Trim.

Lemma trimStart_nil (s : jsstring) :
  trimStart s = [] ↔ blank s.
Proof.
  unfold blank. induction s as [|c s IH]; simpl.
  - split; [constructor | done].
  - destruct (is_space c) eqn:Hc.
    + rewrite IH. split; [by constructor | by inversion 1].
    + split; [done | inversion 1; congruence].
Qed.

Lemma trimStart_blank (s : jsstring) :
  blank (trimStart s) → trimStart s = [].
Proof.
  unfold blank. induction s as [|c s IH]; simpl; [done|].
  destruct (is_space c) eqn:Hc; [done|].
  inversion 1; congruence.
Qed.

Lemma blank_reverse (s : jsstring) : blank (reverse s) ↔ blank s.
Proof. unfold blank. by rewrite Forall_reverse. Qed.

Lemma trimEnd_nil (s : jsstring) :
  trimEnd s = [] ↔ blank s.
Proof.
  unfold trimEnd. rewrite <- blank_reverse, <- trimStart_nil.
  split; intros H.
  - apply (f_equal reverse) in H. by rewrite reverse_involutive in H.
  - by rewrite H.
Qed.

(** [trim] yields the empty string exactly on blank values. *)
Lemma trim_nil (s : jsstring) :
  trim s = [] ↔ blank s.
Proof.
  unfold trim. rewrite trimEnd_nil. split; intros H.
  - by apply trimStart_nil, trimStart_blank.
  - apply trimStart_nil in H. rewrite H. constructor.
Qed.

Lemma truthy_false (s : jsstring) : truthy s = false ↔ s = [].
Proof. by destruct s. Qed.

Lemma truthy_true (s : jsstring) : truthy s = true ↔ s ≠ [].
Proof. by destruct s. Qed.

Lemma truthy_lit_cons (c : ascii) (m : string) : truthy (lit (String c m)) = true.
Proof. done. Qed.

End Trim.

(** ** The matcher against the declarative meaning of patterns *)

Section Matcher.

(** A greedy repetition followed by [k] succeeds exactly when the input
    starts with a non-empty run of [a]s after which [k] succeeds. *)
Lemma match_plus_spec (a : atom) (k : jsstring -> bool) (s : jsstring) :
  match_plus a k s = true ↔
  ∃ u rest, s = u ++ rest ∧ u ≠ [] ∧
            Forall (λ c, atom_matches a c = true) u ∧ k rest = true.
Proof.
  induction s as [|c s IH]; simpl.
  - split; [done|]. intros (u & rest & Hs & Hu & _).
    by destruct u.
  - rewrite andb_true_iff, orb_true_iff, IH. split.
    + intros [Hc [(u & rest & -> & Hu & Hall & Hk) | Hk]].
      * exists (c :: u), rest. repeat split; [done | by constructor | done].
      * exists [c], s. repeat split; [done | by repeat constructor | done].
    + intros (u & rest & Hs & Hu & Hall & Hk).
      destruct u as [|c' u]; [done|]. simpl in Hs.
      injection Hs as -> ->. inversion_clear Hall as [|? ? Hc Hall'].
      split; [done|].
      destruct u as [|c'' u]; [by right|].
      left. exists (c'' :: u), rest. by repeat split.
Qed.

Lemma match_here_spec (r : regex) (s : jsstring) :
  match_here r s = true ↔ ∃ w rest, s = w ++ rest ∧ denote r w.
Proof.
  revert s. induction r as [|[a|a] r IH]; intros s; simpl.
  - split; [|done]. intros _. by exists [], s.
  - destruct s as [|c s].
    + split; [done|]. intros (w & rest & Hs & c & w' & -> & _). done.
    + rewrite andb_true_iff, IH. split.
      * intros [Hc (w & rest & -> & Hw)].
        exists (c :: w), rest. split; [done|]. by exists c, w.
      * intros (w & rest & Hs & c' & w' & -> & Hc & Hw).
        simpl in Hs. injection Hs as -> ->.
        split; [done|]. by exists w', rest.
  - rewrite match_plus_spec. split.
    + intros (u & rest & -> & Hu & Hall & Hk).
      apply IH in Hk as (w & rest' & -> & Hw).
      exists (u ++ w), rest'. split; [by rewrite <- (assoc_L (++))|].
      by exists u, w.
    + intros (w & rest & -> & u & w' & -> & Hu & Hall & Hw).
      exists u, (w' ++ rest). rewrite <- (assoc_L (++)).
      repeat split; try done. apply IH. by exists w', rest.
Qed.

(** [test] is a search: it succeeds when some part of the input is a word
    of the pattern. *)
Lemma test_spec (r : regex) (s : jsstring) :
  test r s = true ↔ ∃ pre w post, s = pre ++ w ++ post ∧ denote r w.
Proof.
  induction s as [|c s IH].
  - simpl. rewrite orb_false_r, match_here_spec. split.
    + intros (w & rest & Hs & Hw). by exists [], w, rest.
    + intros (pre & w & post & Hs & Hw). exists w, post.
      destruct pre; [done|discriminate].
  - simpl. rewrite orb_true_iff, match_here_spec, IH. split.
    + intros [(w & rest & Hs & Hw) | (pre & w & post & -> & Hw)].
      * by exists [], w, rest.
      * by exists (c :: pre), w, post.
    + intros (pre & w & post & Hs & Hw). destruct pre as [|c' pre].
      * left. by exists w, post.
      * right. simpl in Hs. injection Hs as -> ->. by exists pre, w, post.
Qed.

Lemma nonspace_run_atoms (u : jsstring) :
  u ≠ [] ∧ Forall (λ c, atom_matches NonSpace c = true) u ↔ nonspace_run u.
Proof.
  unfold nonspace_run. simpl.
  split; intros [Hu Hall]; (split; [done|]);
    eapply Forall_impl; try exact Hall; simpl; intros c Hc.
  - by apply negb_true_iff.
  - by apply negb_true_iff.
Qed.

(** The words of [/\S+@\S+\.\S+/] are the words having the email shape. *)
Lemma denote_email_re (w : jsstring) :
  denote email_re w ↔ email_shape w.
Proof.
  unfold email_re, email_shape. simpl. split.
  - intros (a & w1 & -> & Ha & HaA & c1 & w2 & -> & Hc1 & b & w3 & -> & Hb & HbA
            & c2 & w4 & -> & Hc2 & c & w5 & -> & Hc & HcA & ->).
    apply N.eqb_eq in Hc1 as ->. apply N.eqb_eq in Hc2 as ->.
    exists a, b, c. rewrite app_nil_r.
    repeat split; try done; by apply nonspace_run_atoms.
  - intros (a & b & c & Ha & Hb & Hc & ->).
    apply nonspace_run_atoms in Ha as [? ?], Hb as [? ?], Hc as [? ?].
    exists a, ([64] ++ b ++ [46] ++ c). repeat split; try done.
    exists 64, (b ++ [46] ++ c). repeat split; try done.
    exists b, ([46] ++ c). repeat split; try done.
    exists 46, c. repeat split; try done.
    exists c, []. rewrite app_nil_r. by repeat split.
Qed.

(** The email test of [validateForm], read declaratively. *)
Lemma test_email_re (v : jsstring) :
  test email_re v = true ↔ matches_email_pattern v.
Proof.
  rewrite test_spec. unfold matches_email_pattern.
  split; intros (pre & w & post & H1 & H2); exists pre, w, post.
  - split; [by apply denote_email_re | done].
  - split; [done | by apply denote_email_re].
Qed.

(** A word with the email shape has no white space in it. *)
Lemma email_shape_nonspace (w : jsstring) :
  email_shape w → Forall (λ c, is_space c = false) w.
Proof.
  intros (a & b & c & [_ Ha] & [_ Hb] & [_ Hc] & ->).
  repeat (apply Forall_app; split); try done; by repeat constructor.
Qed.

Lemma nonspace_not_blank (w : jsstring) :
  w ≠ [] → Forall (λ c, is_space c = false) w → ¬ blank w.
Proof.
  intros Hw Hall Hb. destruct w as [|c w]; [done|].
  inversion Hall; inversion Hb; congruence.
Qed.

(** A value that matches the pattern is never blank. *)
Lemma matches_not_blank (v : jsstring) :
  matches_email_pattern v → ¬ blank v.
Proof.
  intros (pre & w & post & Hw & ->) Hb.
  unfold blank in Hb. rewrite !Forall_app in Hb. destruct Hb as (_ & Hb & _).
  destruct Hw as (a & b & c & [Ha Ha'] & _ & _ & ->).
  destruct a as [|x a]; [done|].
  inversion Ha'; inversion Hb; congruence.
Qed.

End Matcher.

(** ** The validation pass *)

(** Unfolds the handler combinators, leaving maps, strings and the
    JavaScript primitives untouched. *)
Ltac run_handler :=
  cbv beta iota zeta delta
    [validate step dispatch handleChange validateForm handleSubmit
     mbind mret handler_bind handler_ret
     read_formData read_errors setFormData setErrors emit
     next trace formData errors fst snd].

Ltac case_rules :=
  repeat match goal with
  | |- context [negb (truthy ?s)] => destruct (truthy s) eqn:?; simpl negb; cbv iota
  | |- context [negb (test ?r ?s)] => destruct (test r s) eqn:?; simpl negb; cbv iota
  end.

Section Validate.

Implicit Types (d : ContactFormData) (e : Errors) (k : string).

(** The error object installed by the pass does not depend on the errors
    shown before. *)
Lemma validate_replaces d e e' : validate d e = validate d e'.
Proof. reflexivity. Qed.

Lemma validate_name d e :
  (validate d e).2 !! "name" =
  if truthy (trim (name d)) then None else Some (lit "Name is required").
Proof. run_handler. case_rules; by simplify_map_eq. Qed.

Lemma validate_email d e :
  (validate d e).2 !! "email" =
  if truthy (trim (email d)) then
    if test email_re (email d) then None else Some (lit "Email is not valid")
  else Some (lit "Email is required").
Proof. run_handler. case_rules; by simplify_map_eq. Qed.

Lemma validate_subject d e :
  (validate d e).2 !! "subject" =
  if truthy (trim (subject d)) then None else Some (lit "Subject is required").
Proof. run_handler. case_rules; by simplify_map_eq. Qed.

Lemma validate_message d e :
  (validate d e).2 !! "message" =
  if truthy (trim (message d)) then None else Some (lit "Message is required").
Proof. run_handler. case_rules; by simplify_map_eq. Qed.

(** No property other than the four field names is ever set. *)
Lemma validate_other d e k :
  (∀ f, k ≠ key f) → (validate d e).2 !! k = None.
Proof.
  intros Hk.
  pose proof (Hk FName). pose proof (Hk FEmail).
  pose proof (Hk FSubject). pose proof (Hk FMessage). simpl in *.
  run_handler. case_rules; by simplify_map_eq.
Qed.

Lemma Object_keys_empty e :
  bool_decide (length (Object_keys e) = 0%nat) = true ↔ e = ∅.
Proof.
  rewrite bool_decide_eq_true. unfold Object_keys.
  rewrite length_fmap, length_zero_iff_nil. apply map_to_list_empty_iff.
Qed.

(** The boolean returned by [validateForm] tells whether the installed
    error object is empty. *)
Lemma validate_ok d e :
  (validate d e).1 = true ↔ (validate d e).2 = ∅.
Proof. run_handler. apply Object_keys_empty. Qed.

End Validate.

(** ** The rules, field by field *)

Section Rules.

Implicit Types (d : ContactFormData) (e : Errors) (k : string) (f : Field).

Lemma required_rule (v msg m : jsstring) :
  (if truthy (trim v) then None else Some m) = Some msg ↔
  trim v = [] ∧ msg = m.
Proof.
  destruct (truthy (trim v)) eqn:H.
  - apply truthy_true in H. split; [done | by intros [? _]].
  - apply truthy_false in H. split; [by intros [= <-] | by intros [_ ->]].
Qed.

(** What [validateForm] stores under a field name is what the rule of that
    field says. *)
Lemma validate_field d e f msg :
  (validate d e).2 !! key f = Some msg ↔ fails_with f d msg.
Proof.
  destruct f; cbn [key fails_with].
  - rewrite validate_name. apply required_rule.
  - rewrite validate_email.
    destruct (truthy (trim (email d))) eqn:Ht.
    + apply truthy_true in Ht.
      destruct (test email_re (email d)) eqn:Hre.
      * apply test_email_re in Hre. split; [done|].
        intros [[? _] | (_ & ? & _)]; done.
      * split.
        -- intros [= <-]. right. split; [done|]. split; [|done].
           rewrite <- test_email_re. congruence.
        -- intros [[? _] | (_ & _ & ->)]; done.
    + apply truthy_false in Ht. split.
      * intros [= <-]. by left.
      * intros [[_ ->] | (? & _)]; done.
  - rewrite validate_subject. apply required_rule.
  - rewrite validate_message. apply required_rule.
Qed.

Lemma key_inj f g : key f = key g → f = g.
Proof. by destruct f, g. Qed.

Lemma key_cases k : (∃ f, k = key f) ∨ (∀ f, k ≠ key f).
Proof.
  destruct (decide (k = "name")) as [->|?]; [left; by exists FName|].
  destruct (decide (k = "email")) as [->|?]; [left; by exists FEmail|].
  destruct (decide (k = "subject")) as [->|?]; [left; by exists FSubject|].
  destruct (decide (k = "message")) as [->|?]; [left; by exists FMessage|].
  right. by intros [].
Qed.

Lemma validate_lookup d e k msg :
  (validate d e).2 !! k = Some msg ↔ ∃ f, k = key f ∧ fails_with f d msg.
Proof.
  destruct (key_cases k) as [[f ->] | Hk].
  - rewrite validate_field. split; [by exists f|].
    by intros (g & ->%key_inj & ?).
  - rewrite validate_other by done. split; [done|].
    intros (f & -> & _). by destruct (Hk f).
Qed.

Lemma validate_empty d e :
  (validate d e).2 = ∅ ↔ ∀ f msg, ¬ fails_with f d msg.
Proof.
  split.
  - intros He f msg Hf. apply (validate_field d e) in Hf.
    rewrite He in Hf. by rewrite lookup_empty in Hf.
  - intros Hno. apply map_eq. intros k. rewrite lookup_empty.
    destruct ((validate d e).2 !! k) as [msg|] eqn:Hk; [|done].
    apply validate_lookup in Hk as (f & _ & Hf). by destruct (Hno f msg).
Qed.

(** The entry kept for one field depends on the value of that field only. *)
Lemma validate_frame d e e' f v k :
  k ≠ key f →
  (validate (set_field d f v) e).2 !! k = (validate d e').2 !! k.
Proof.
  intros Hk. destruct (key_cases k) as [[g ->] | Hother].
  - destruct g, f; try done; cbn [key];
      rewrite ?validate_name, ?validate_email, ?validate_subject,
        ?validate_message; done.
  - by rewrite !validate_other.
Qed.

(** The messages are non-empty strings, hence truthy. *)
Lemma validate_truthy d e k msg :
  (validate d e).2 !! k = Some msg → truthy msg = true.
Proof.
  intros (f & -> & Hf)%validate_lookup.
  destruct f; simpl in Hf; [| destruct Hf as [Hf|(_ & Hf)] | |];
    destruct Hf as [_ ->]; done.
Qed.

End Rules.

(** C1: for every form, [validate] answers [true] exactly when no field
    fails its rule; the error object it yields has an entry exactly for the
    failing fields, each with its fixed message, and nothing for fields that
    pass; it does not depend on the errors shown before, and it is what the
    component shows afterwards. *)
Theorem validate_exactly_failing_fields (d : ContactFormData) (prev : Errors) :
  ((validate d prev).1 = true ↔ ∀ f msg, ¬ fails_with f d msg) ∧
  (∀ k msg, (validate d prev).2 !! k = Some msg ↔
            ∃ f, k = key f ∧ fails_with f d msg) ∧
  (∀ f, (validate d prev).2 !! key f = None ↔ ∀ msg, ¬ fails_with f d msg) ∧
  (∀ prev', validate d prev' = validate d prev) ∧
  (dispatch validateForm (mkState d prev)).1.2 = mkState d (validate d prev).2.
Proof.
  split; [by rewrite validate_ok, validate_empty|].
  split; [apply validate_lookup|].
  split; [|split; [intros; apply validate_replaces | reflexivity]].
  intros f. split.
  - intros Hnone msg Hf. apply (validate_field d prev) in Hf. congruence.
  - intros Hno. destruct ((validate d prev).2 !! key f) as [msg|] eqn:Hk; [|done].
    apply validate_field in Hk. by destruct (Hno msg).
Qed.

(** C2: when the four fields are non-blank after trimming and the email
    value matches the minimal email shape, [validate] answers [true] with an
    empty error object. *)
Theorem validate_accepts (d : ContactFormData) (prev : Errors) :
  trim (name d) ≠ [] →
  trim (email d) ≠ [] →
  trim (subject d) ≠ [] →
  trim (message d) ≠ [] →
  matches_email_pattern (email d) →
  validate d prev = (true, ∅).
Proof.
  intros Hn He Hs Hm Hre.
  assert (Hempty : (validate d prev).2 = ∅).
  { apply validate_empty. intros f msg Hf.
    destruct f; simpl in Hf; [| destruct Hf as [Hf|(_ & Hf & _)] | |];
      try (by destruct Hf); done. }
  pose proof (proj2 (validate_ok d prev) Hempty) as Hok.
  destruct (validate d prev) as [ok errs]. simpl in *. congruence.
Qed.

Lemma validate_accepts_witness :
  validate form_complete ∅ = (true, ∅).
Proof.
  apply validate_accepts; try (vm_compute; discriminate).
  apply test_email_re. vm_compute. reflexivity.
Defined.

(** C3: the email rule.  A blank email gets "Email is required"; a
    non-blank one gets "Email is not valid" exactly when the value as typed
    does not match the pattern, and no entry otherwise; at most one of the two
    messages is produced. *)
Theorem email_rule (d : ContactFormData) (prev : Errors) :
  (trim (email d) = [] →
     (validate d prev).2 !! "email" = Some (lit "Email is required")) ∧
  (trim (email d) ≠ [] →
     ((validate d prev).2 !! "email" = Some (lit "Email is not valid") ↔
      ¬ matches_email_pattern (email d)) ∧
     ((validate d prev).2 !! "email" = None ↔
      matches_email_pattern (email d))) ∧
  ¬ ((validate d prev).2 !! "email" = Some (lit "Email is required") ∧
     (validate d prev).2 !! "email" = Some (lit "Email is not valid")).
Proof.
  rewrite validate_email. split; [|split].
  - intros Ht. apply truthy_false in Ht. by rewrite Ht.
  - intros Ht. apply truthy_true in Ht. rewrite Ht.
    rewrite <- test_email_re.
    destruct (test email_re (email d)); split; split; done.
  - intros [H1 H2]. rewrite H1 in H2. discriminate.
Qed.

Lemma email_rule_witness :
  (validate (mkForm (lit "A") (lit "bad") (lit "S") (lit "M")) ∅).2 !! "email"
    = Some (lit "Email is not valid").
Proof.
  apply (proj1 (proj2 (email_rule
           (mkForm (lit "A") (lit "bad") (lit "S") (lit "M")) ∅))).
  - vm_compute. discriminate.
  - intros H. apply test_email_re in H. vm_compute in H. discriminate.
Defined.

(** The two worked examples of the specification. *)
Example validate_bad_email :
  validate (mkForm (lit "A") (lit "bad") (lit "S") (lit "M")) ∅
  = (false, {["email" := lit "Email is not valid"]}).
Proof. by vm_compute. Qed.

Example validate_two_blank :
  validate (mkForm (lit "") (lit "a@b.com") (lit "") (lit "hi")) ∅
  = (false, <["name" := lit "Name is required"]>
              {["subject" := lit "Subject is required"]}).
Proof. by vm_compute. Qed.

(** C9: the email check is a search.  Whenever some part of the value has
    the email shape, no email error is reported, whatever surrounds that
    part; "a@b.c extra words" is such a value although, taken as a whole, it
    does not have the shape. *)
Theorem email_check_unanchored :
  (∀ (d : ContactFormData) (prev : Errors) (pre w post : jsstring),
     email_shape w → email d = pre ++ w ++ post →
     (validate d prev).2 !! "email" = None) ∧
  (∀ (n s m : jsstring) (prev : Errors),
     ¬ email_shape (lit "a@b.c extra words") ∧
     (validate (mkForm n (lit "a@b.c extra words") s m) prev).2 !! "email" = None).
Proof.
  split.
  - intros d prev pre w post Hw Hd.
    assert (Hm : matches_email_pattern (email d)) by (by exists pre, w, post).
    rewrite validate_email.
    rewrite (proj2 (test_email_re _) Hm).
    destruct (truthy (trim (email d))) eqn:Ht; [done|].
    apply truthy_false, trim_nil in Ht. by apply matches_not_blank in Hm.
  - intros n s m prev. split.
    + intros Hall%email_shape_nonspace.
      rewrite Forall_forall in Hall. specialize (Hall 32).
      assert (Hin : 32 ∈ lit "a@b.c extra words").
      { apply list_elem_of_In. vm_compute. tauto. }
      apply Hall in Hin. vm_compute in Hin. discriminate.
    + rewrite validate_email. by vm_compute.
Qed.

Lemma email_check_unanchored_witness :
  (validate (mkForm (lit "A") (lit "x a@b.c") (lit "S") (lit "M")) ∅).2 !! "email"
    = None.
Proof.
  apply (proj1 email_check_unanchored _ ∅ (lit "x ") (lit "a@b.c") []).
  - exists (lit "a"), (lit "b"), (lit "c").
    repeat split; try (vm_compute; discriminate);
      by repeat constructor.
  - reflexivity.
Defined.

(** C10: the subject rule only asks for a non-blank value; a subject that
    is not one of the listed options passes like a listed one. *)
Theorem subject_not_restricted :
  (∀ (d : ContactFormData) (prev : Errors),
     trim (subject d) ≠ [] → (validate d prev).2 !! "subject" = None) ∧
  (∀ (n e m : jsstring) (prev : Errors),
     (lit "banana" ∉ subject_options) ∧
     (validate (mkForm n e (lit "banana") m) prev).2 !! "subject" = None ∧
     (validate (mkForm n e (lit "tour") m) prev).2 !! "subject" = None).
Proof.
  split.
  - intros d prev Ht. rewrite validate_subject.
    apply truthy_true in Ht. by rewrite Ht.
  - intros n e m prev. split; [|split].
    + unfold subject_options. rewrite !elem_of_cons, elem_of_nil.
      vm_compute. intros H. repeat destruct H as [H|H]; done.
    + rewrite validate_subject. by vm_compute.
    + rewrite validate_subject. by vm_compute.
Qed.

Lemma subject_not_restricted_witness :
  (validate (mkForm [] [] (lit "anything else") []) ∅).2 !! "subject" = None.
Proof.
  apply (proj1 subject_not_restricted). vm_compute. discriminate.
Defined.

(** ** The handlers as state transitions *)

Section Steps.

Implicit Types (s : State) (f : Field) (v : jsstring) (k : string).

(** One submit event, in closed form. *)
Lemma step_submit s :
  step s Submit =
  if (validate (formData s) (errors s)).1 then
    (mkState (mkForm [] [] [] []) (validate (formData s) (errors s)).2,
     [PreventDefault; ConsoleLog (formData s); ToastSuccess success_message])
  else
    (mkState (formData s) (validate (formData s) (errors s)).2,
     [PreventDefault]).
Proof.
  destruct s as [d e]. run_handler.
  by destruct (bool_decide _).
Qed.

(** One change event, in closed form. *)
Lemma step_change s f v :
  step s (Change f v) =
  (mkState (set_field (formData s) f v)
     (if truthy_prop (errors s !! key f) then delete (key f) (errors s)
      else errors s),
   []).
Proof.
  destruct s as [d e]. run_handler.
  by destruct (truthy_prop _).
Qed.

Lemma get_set_field_eq (d : ContactFormData) f v :
  get_field (set_field d f v) f = v.
Proof. by destruct f. Qed.

Lemma get_set_field_ne (d : ContactFormData) f g v :
  g ≠ f → get_field (set_field d f v) g = get_field d g.
Proof. by destruct f, g. Qed.

(** Every entry shown by the mounted component is the entry a validation
    pass on the current form would produce. *)
Lemma reachable_errors_current s :
  reachable s →
  ∀ k msg, errors s !! k = Some msg →
           (validate (formData s) (errors s)).2 !! k = Some msg.
Proof.
  induction 1 as [|s ev Hs IH];
    [by intros k msg; cbn [initial errors]; rewrite lookup_empty|].
  intros k msg. destruct ev as [f v|].
  - rewrite step_change. cbn [fst formData errors].
    destruct (decide (k = key f)) as [->|Hk].
    + destruct (errors s !! key f) as [m|] eqn:Hf; simpl.
      * pose proof (validate_truthy _ _ _ _ (IH _ _ Hf)) as ->.
        by rewrite lookup_delete_eq.
      * by rewrite Hf.
    + intros Hl.
      rewrite (validate_frame _ _ (errors s)) by done. apply IH.
      destruct (truthy_prop _); [by rewrite lookup_delete_ne in Hl|done].
  - rewrite step_submit.
    destruct (validate (formData s) (errors s)).1 eqn:Hok; cbn [fst formData errors].
    + apply validate_ok in Hok. rewrite Hok. by rewrite lookup_empty.
    + done.
Qed.

Lemma reachable_errors_truthy s k msg :
  reachable s → errors s !! k = Some msg → truthy msg = true.
Proof.
  intros Hs Hk. eapply validate_truthy, reachable_errors_current; eauto.
Qed.

(** The guard of [handleChange] is a truthiness test on the stored message:
    an empty message would not be dropped.  No reachable state stores one
    ([reachable_errors_truthy]). *)
Example change_keeps_empty_message :
  errors (step (mkState (mkForm [] [] [] []) {["name" := []]})
            (Change FName (lit "Li"))).1 !! "name" = Some [].
Proof. by vm_compute. Qed.

(** Sessions stay within the reachable states. *)
Lemma reachable_run s (evs : list event) :
  reachable s → reachable (run s evs).1.
Proof.
  revert s. induction evs as [|ev evs IH]; intros s Hs; [done|].
  simpl. pose proof (reachable_step s ev Hs) as Hstep.
  destruct (step s ev) as [s1 t1]. specialize (IH s1 Hstep).
  by destruct (run s1 evs) as [s2 t2].
Qed.

End Steps.

(** C4: a submit event on a form that validates hands the fixed message to
    the notification sink exactly once, resets the four fields to the empty
    string and leaves no error. *)
Theorem submit_valid (s : State) :
  (validate (formData s) (errors s)).1 = true →
  toasts (step s Submit).2 =
    [lit "Thank you for your message! We will get back to you soon."] ∧
  name (formData (step s Submit).1) = [] ∧
  email (formData (step s Submit).1) = [] ∧
  subject (formData (step s Submit).1) = [] ∧
  message (formData (step s Submit).1) = [] ∧
  errors (step s Submit).1 = ∅.
Proof.
  intros Hok. rewrite step_submit, Hok. cbn [fst snd formData errors].
  repeat split. by apply validate_ok.
Qed.

Lemma submit_valid_witness :
  toasts (step state_complete Submit).2 =
    [lit "Thank you for your message! We will get back to you soon."] ∧
  name (formData (step state_complete Submit).1) = [] ∧
  email (formData (step state_complete Submit).1) = [] ∧
  subject (formData (step state_complete Submit).1) = [] ∧
  message (formData (step state_complete Submit).1) = [] ∧
  errors (step state_complete Submit).1 = ∅.
Proof.
  apply (submit_valid state_complete). vm_compute. reflexivity.
Defined.

(** C5: a submit event on a form that does not validate installs exactly
    the error object of the validation pass, leaves the form as it is and
    does not reach the notification sink; over all events, the sink receives
    one message for a submit that validates and none otherwise. *)
Theorem submit_invalid (s : State) :
  ((validate (formData s) (errors s)).1 = false →
     errors (step s Submit).1 = (validate (formData s) (errors s)).2 ∧
     formData (step s Submit).1 = formData s ∧
     toasts (step s Submit).2 = []) ∧
  (∀ ev, toasts (step s ev).2 =
         match ev with
         | Submit =>
             if (validate (formData s) (errors s)).1
             then [lit "Thank you for your message! We will get back to you soon."]
             else []
         | Change _ _ => []
         end).
Proof.
  split.
  - intros Hok. by rewrite step_submit, Hok.
  - intros [f v|].
    + by rewrite step_change.
    + rewrite step_submit. by destruct (validate _ _).1.
Qed.

Lemma submit_invalid_witness :
  errors (step state_incomplete Submit).1 =
    <["email" := lit "Email is not valid"]>
      {["subject" := lit "Subject is required"]} ∧
  formData (step state_incomplete Submit).1 = form_incomplete ∧
  toasts (step state_incomplete Submit).2 = [].
Proof.
  assert (Hv : (validate (formData state_incomplete)
                  (errors state_incomplete)).2 =
               <["email" := lit "Email is not valid"]>
                 {["subject" := lit "Subject is required"]})
    by (by vm_compute).
  rewrite <- Hv.
  apply (proj1 (submit_invalid state_incomplete)). vm_compute. reflexivity.
Defined.

(** C6: in any state of the mounted component, a change event for field
    [f] with value [v] stores [v] in that field and drops the error entry of
    that field if there is one; the other fields, the error entries of the
    other fields and the notification sink are left alone.  The handler is a
    total function: there is no input on which it fails. *)
Theorem change_field (s : State) (f : Field) (v : jsstring) :
  reachable s →
  get_field (formData (step s (Change f v)).1) f = v ∧
  (∀ g, g ≠ f →
        get_field (formData (step s (Change f v)).1) g = get_field (formData s) g) ∧
  errors (step s (Change f v)).1 !! key f = None ∧
  (∀ k, k ≠ key f → errors (step s (Change f v)).1 !! k = errors s !! k) ∧
  errors (step s (Change f v)).1 = delete (key f) (errors s) ∧
  (step s (Change f v)).2 = [].
Proof.
  intros Hs. rewrite step_change. cbn [fst snd formData errors].
  assert (Hdel : (if truthy_prop (errors s !! key f)
                  then delete (key f) (errors s) else errors s)
                 = delete (key f) (errors s)).
  { destruct (errors s !! key f) as [m|] eqn:Hf; simpl.
    - by rewrite (reachable_errors_truthy s (key f) m).
    - by rewrite delete_id. }
  rewrite Hdel. split; [apply get_set_field_eq|].
  split; [intros; by apply get_set_field_ne|].
  split; [apply lookup_delete_eq|].
  split; [intros; by apply lookup_delete_ne|done].
Qed.

Lemma change_field_witness :
  errors state_all_flagged !! "name" = Some (lit "Name is required") ∧
  name (formData (step state_all_flagged (Change FName (lit "Li"))).1)
    = lit "Li" ∧
  errors (step state_all_flagged (Change FName (lit "Li"))).1 !! "name"
    = None ∧
  errors (step state_all_flagged (Change FName (lit "Li"))).1 !! "email"
    = Some (lit "Email is required").
Proof.
  destruct (change_field state_all_flagged FName (lit "Li"))
    as (Hset & _ & Hgone & Hkeep & _).
  { apply reachable_step, reachable_initial. }
  split; [by vm_compute|].
  split; [exact Hset|].
  split; [exact Hgone|].
  rewrite Hkeep by done. by vm_compute.
Defined.

(** C7: in every state reachable from the initial one by change and submit
    events, the keys of the error object are among the four field names, and
    an entry present for a field is the message with which that field fails
    its rule on the current form. *)
Theorem errors_current (s : State) :
  reachable s →
  dom (errors s) ⊆ ({["name"; "email"; "subject"; "message"]} : gset string) ∧
  (∀ f msg, errors s !! key f = Some msg → fails_with f (formData s) msg).
Proof.
  intros Hs. split.
  - intros k [msg Hk]%elem_of_dom.
    apply (reachable_errors_current s Hs), validate_lookup in Hk.
    destruct Hk as (f & -> & _). destruct f; set_solver.
  - intros f msg Hk.
    by apply (reachable_errors_current s Hs), validate_field in Hk.
Qed.

Lemma errors_current_witness :
  dom (errors (run initial session_blank_name).1)
    ⊆ ({["name"; "email"; "subject"; "message"]} : gset string) ∧
  (∀ f msg, errors (run initial session_blank_name).1 !! key f = Some msg →
            fails_with f (formData (run initial session_blank_name).1) msg).
Proof.
  apply (errors_current (run initial session_blank_name).1).
  apply reachable_run, reachable_initial.
Defined.

(** C8: the validation outcome is a function of the form alone.  It does
    not depend on the errors shown before; the pass does not touch the form
    and reaches neither the console nor the notification sink, its only write
    being the error object it yields; a second pass on the unchanged form gives
    the same answer and the same error object. *)
Theorem validate_pure (d : ContactFormData) (e e' : Errors) :
  validate d e = validate d e' ∧
  formData (dispatch validateForm (mkState d e)).1.2 = d ∧
  errors (dispatch validateForm (mkState d e)).1.2 = (validate d e).2 ∧
  (dispatch validateForm (mkState d e)).2 = [] ∧
  dispatch validateForm (dispatch validateForm (mkState d e)).1.2
    = dispatch validateForm (mkState d e).
Proof. repeat split. Qed.

(** ** Further properties of the handlers *)

Section Sessions.

Implicit Types (s : State) (d : ContactFormData) (f g : Field)
  (v w : jsstring) (k : string) (evs : list event) (t : list effect).

Lemma set_field_twice d f v w :
  set_field (set_field d f v) f w = set_field d f w.
Proof. by destruct f. Qed.

Lemma set_field_comm d f g v w :
  f ≠ g → set_field (set_field d f v) g w = set_field (set_field d g w) f v.
Proof. by destruct f, g. Qed.

(** The error object after a change event, whatever the state. *)
Lemma change_errors s f v :
  errors (step s (Change f v)).1 =
  if truthy_prop (errors s !! key f) then delete (key f) (errors s) else errors s.
Proof. by rewrite step_change. Qed.

Lemma change_formData s f v :
  formData (step s (Change f v)).1 = set_field (formData s) f v.
Proof. by rewrite step_change. Qed.

(** In a reachable state the guard of [handleChange] holds whenever the
    field has an entry, so the entry of the edited field is always dropped. *)
Lemma change_errors_reachable s f v :
  reachable s → errors (step s (Change f v)).1 = delete (key f) (errors s).
Proof.
  intros Hs. rewrite change_errors.
  destruct (errors s !! key f) as [m|] eqn:Hf; simpl.
  - by rewrite (reachable_errors_truthy s (key f) m).
  - by rewrite delete_id.
Qed.

Lemma state_eq s s' :
  formData s = formData s' → errors s = errors s' → s = s'.
Proof. destruct s, s'; simpl; congruence. Qed.

Lemma blank_fails f v d :
  trim v = [] → ∃ msg, fails_with f (set_field d f v) msg.
Proof.
  intros Hv. destruct f; simpl; eauto.
Qed.

Lemma toasts_app t t' : toasts (t ++ t') = toasts t ++ toasts t'.
Proof.
  induction t as [|[] t IH]; simpl; by rewrite ?IH.
Qed.

Lemma prevented_app t t' : prevented (t ++ t') = (prevented t + prevented t')%nat.
Proof.
  induction t as [|[] t IH]; simpl; by rewrite ?IH.
Qed.

Lemma run_cons s ev evs :
  run s (ev :: evs) =
  ((run (step s ev).1 evs).1, (step s ev).2 ++ (run (step s ev).1 evs).2).
Proof.
  cbn [run]. destruct (step s ev) as [s1 t1]. cbn [fst snd].
  by destruct (run s1 evs) as [s2 t2].
Qed.

Lemma validate_true_filled d (e : Errors) :
  (validate d e).1 = true → filled d = 4%nat.
Proof.
  intros Hok%validate_ok.
  pose proof (validate_name d e) as Hn. pose proof (validate_email d e) as He.
  pose proof (validate_subject d e) as Hs. pose proof (validate_message d e) as Hm.
  rewrite Hok, lookup_empty in Hn, He, Hs, Hm. unfold filled.
  destruct (truthy (trim (name d))); [|done].
  destruct (truthy (trim (email d))); [|done].
  destruct (truthy (trim (subject d))); [|done].
  by destruct (truthy (trim (message d))).
Qed.

Lemma filled_set_field d f v : (filled (set_field d f v) ≤ filled d + 1)%nat.
Proof.
  unfold filled. destruct f; cbn [set_field name email subject message];
    repeat match goal with
           | |- context [Nat.b2n (truthy ?x)] => destruct (truthy x)
           end;
    cbn [Nat.b2n]; lia.
Qed.

End Sessions.

(** X1: a change event never adds an error entry, in any state and for any
    value; in particular a blank replacement typed into a flagged field
    removes the entry although the field then fails its rule.  Entries only
    appear on submit. *)
Theorem change_never_flags (s : State) (f : Field) (v : jsstring) :
  errors (step s (Change f v)).1 ⊆ errors s ∧
  (reachable s → trim v = [] →
   errors (step s (Change f v)).1 !! key f = None ∧
   ∃ msg, fails_with f (formData (step s (Change f v)).1) msg).
Proof.
  split.
  - rewrite change_errors. destruct (truthy_prop _); [apply delete_subseteq|done].
  - intros Hs Hv. split.
    + rewrite change_errors_reachable by done. apply lookup_delete_eq.
    + rewrite change_formData. by apply blank_fails.
Qed.

Lemma change_never_flags_witness :
  errors state_all_flagged !! "name" = Some (lit "Name is required") ∧
  errors (step state_all_flagged (Change FName (lit "  "))).1 !! "name" = None ∧
  ∃ msg, fails_with FName
           (formData (step state_all_flagged (Change FName (lit "  "))).1) msg.
Proof.
  split; [by vm_compute|].
  apply (proj2 (change_never_flags state_all_flagged FName (lit "  "))).
  - apply reachable_step, reachable_initial.
  - by vm_compute.
Defined.

(** X2: two change events on the same field collapse to the last one:
    the state after typing [v] then [w] into a field is the state after
    typing [w] alone. *)
Theorem change_last_wins (s : State) (f : Field) (v w : jsstring) :
  (step (step s (Change f v)).1 (Change f w)).1 = (step s (Change f w)).1.
Proof.
  apply state_eq.
  - by rewrite !change_formData, set_field_twice.
  - rewrite !change_errors.
    destruct (truthy_prop (errors s !! key f)) eqn:Ht.
    + by rewrite lookup_delete_eq.
    + by rewrite Ht.
Qed.

(** X3: change events on two different fields commute. *)
Theorem change_commute (s : State) (f g : Field) (v w : jsstring) :
  f ≠ g →
  (step (step s (Change f v)).1 (Change g w)).1 =
  (step (step s (Change g w)).1 (Change f v)).1.
Proof.
  intros Hfg.
  assert (Hk : key f ≠ key g) by (by intros ?%key_inj).
  apply state_eq.
  - rewrite !change_formData. by apply set_field_comm.
  - rewrite !change_errors.
    destruct (truthy_prop (errors s !! key f)) eqn:Hf,
             (truthy_prop (errors s !! key g)) eqn:Hg;
      rewrite ?lookup_delete_ne, ?Hf, ?Hg by done; try done.
    apply delete_delete.
Qed.

Lemma change_commute_witness :
  (run state_all_flagged [Change FName (lit "Li"); Change FEmail (lit "li@example.cn")]).1 =
  (run state_all_flagged [Change FEmail (lit "li@example.cn"); Change FName (lit "Li")]).1.
Proof.
  rewrite !run_cons. cbn [fst run].
  by apply (change_commute state_all_flagged FName FEmail).
Defined.

(** X4: a refused submission can be repeated without effect: submitting
    again gives the same state, with [preventDefault] as the only effect. *)
Theorem submit_refused_again (s : State) :
  (validate (formData s) (errors s)).1 = false →
  step (step s Submit).1 Submit = step s Submit ∧
  (step s Submit).2 = [PreventDefault].
Proof.
  intros Hok. rewrite (step_submit s), Hok. cbn [fst snd].
  split; [|done].
  rewrite step_submit. cbn [formData errors].
  by rewrite (validate_replaces _ _ (errors s)), Hok.
Qed.

Lemma submit_refused_again_witness :
  step (step state_incomplete Submit).1 Submit = step state_incomplete Submit ∧
  (step state_incomplete Submit).2 = [PreventDefault].
Proof.
  apply (submit_refused_again state_incomplete). by vm_compute.
Defined.

(** X5: submitting a second time right after an accepted submission is
    refused: the form has been emptied, so the four fields are flagged as
    missing and nothing reaches the notification sink. *)
Theorem submit_twice (s : State) :
  (validate (formData s) (errors s)).1 = true →
  step (step s Submit).1 Submit =
    (mkState (mkForm [] [] [] []) all_required, [PreventDefault]) ∧
  (run s [Submit; Submit]).2 =
    [PreventDefault; ConsoleLog (formData s);
     ToastSuccess (lit "Thank you for your message! We will get back to you soon.");
     PreventDefault].
Proof.
  intros Hok.
  assert (H1 : step s Submit =
               (mkState (mkForm [] [] [] []) ∅,
                [PreventDefault; ConsoleLog (formData s); ToastSuccess success_message])).
  { rewrite step_submit, Hok. by rewrite (proj1 (validate_ok _ _) Hok). }
  assert (H2 : step (mkState (mkForm [] [] [] []) ∅) Submit =
               (mkState (mkForm [] [] [] []) all_required, [PreventDefault]))
    by (by vm_compute).
  split.
  - by rewrite H1.
  - rewrite !run_cons, H1. cbn [fst snd run]. by rewrite H2.
Qed.

Lemma submit_twice_witness :
  toasts (run state_complete [Submit; Submit]).2 =
    [lit "Thank you for your message! We will get back to you soon."] ∧
  errors (run state_complete [Submit; Submit]).1 = all_required.
Proof.
  destruct (submit_twice state_complete) as [H1 H2]; [by vm_compute|].
  split.
  - by rewrite H2.
  - rewrite !run_cons. cbn [fst run]. by rewrite H1.
Defined.

Section Traces.

Implicit Types (s : State) (d : ContactFormData) (evs : list event)
  (t : list effect).

Lemma logged_app t t' : logged (t ++ t') = logged t ++ logged t'.
Proof.
  induction t as [|[] t IH]; simpl; by rewrite ?IH.
Qed.

(** The effects of one event, by cases. *)
Lemma step_effects s ev :
  (step s ev).2 =
  match ev with
  | Change _ _ => []
  | Submit =>
      if (validate (formData s) (errors s)).1
      then [PreventDefault; ConsoleLog (formData s); ToastSuccess success_message]
      else [PreventDefault]
  end.
Proof.
  destruct ev as [f v|]; [by rewrite step_change|].
  rewrite step_submit. by destruct (validate _ _).1.
Qed.

Lemma step_filled s ev :
  (4 * length (toasts (step s ev).2) + filled (formData (step s ev).1)
   ≤ filled (formData s) + changes [ev])%nat.
Proof.
  destruct ev as [f v|].
  - rewrite step_change. cbn [fst snd formData toasts length changes].
    pose proof (filled_set_field (formData s) f v). lia.
  - rewrite step_submit.
    destruct (validate (formData s) (errors s)).1 eqn:Hok;
      cbn [fst snd formData toasts length changes].
    + apply validate_true_filled in Hok. rewrite Hok. by vm_compute.
    + lia.
Qed.

End Traces.

(** X6: over any session, from any state, [preventDefault] is called once
    per submit event; every message given to the notification sink is the
    fixed one; a form is written to the console exactly when a message is
    sent, and every form written there passes validation. *)
Theorem session_effects (s : State) (evs : list event) :
  prevented (run s evs).2 = submits evs ∧
  (length (toasts (run s evs).2) ≤ submits evs)%nat ∧
  Forall (λ m, m = lit "Thank you for your message! We will get back to you soon.")
         (toasts (run s evs).2) ∧
  length (logged (run s evs).2) = length (toasts (run s evs).2) ∧
  Forall (λ d, (validate d ∅).1 = true) (logged (run s evs).2).
Proof.
  revert s. induction evs as [|ev evs IH]; intros s.
  - cbn [run snd prevented toasts logged submits length]. by repeat split.
  - rewrite run_cons. cbn [snd].
    rewrite prevented_app, toasts_app, logged_app, !length_app, !Forall_app.
    destruct (IH (step s ev).1) as (IH1 & IH2 & IH3 & IH4 & IH5).
    rewrite IH1, IH4, step_effects.
    destruct ev as [f v|]; cbn [submits].
    + by repeat split.
    + destruct (validate (formData s) (errors s)).1 eqn:Hok;
        cbn [prevented toasts logged length].
      * repeat split; try done; try lia.
        -- by repeat constructor.
        -- repeat constructor. by rewrite (validate_replaces _ _ (errors s)).
      * repeat split; try done; lia.
Qed.

(** X7: every accepted submission uses up four change events: in a session
    started at mount, four times the number of messages sent is at most the
    number of change events (the form is emptied on success and each change
    fills at most one field). *)
Theorem session_needs_four_changes (evs : list event) :
  (4 * length (toasts (run initial evs).2) ≤ changes evs)%nat.
Proof.
  assert (Hgen : ∀ s,
    (4 * length (toasts (run s evs).2) ≤ filled (formData s) + changes evs)%nat).
  { induction evs as [|ev evs IH]; intros s.
    - cbn [run snd toasts length changes]. lia.
    - rewrite run_cons. cbn [snd]. rewrite toasts_app, length_app.
      specialize (IH (step s ev).1). pose proof (step_filled s ev) as Hstep.
      assert (changes (ev :: evs) = (changes [ev] + changes evs)%nat) as ->
        by (by destruct ev).
      lia. }
  specialize (Hgen initial).
  assert (H0 : filled (formData initial) = 0%nat) by (by vm_compute).
  rewrite H0 in Hgen. exact Hgen.
Qed.

Section Acceptance.

Implicit Types (s : State) (d : ContactFormData) (e : Errors) (f : Field)
  (v : jsstring).

Lemma truthy_trim_blank v : truthy (trim v) = false ↔ blank v.
Proof. by rewrite truthy_false, trim_nil. Qed.

Lemma truthy_trim_not_blank v : truthy (trim v) = true ↔ ¬ blank v.
Proof. by rewrite truthy_true, trim_nil. Qed.

Lemma validate_fst d e :
  (validate d e).1 = bool_decide (length (Object_keys (validate d e).2) = 0%nat).
Proof. reflexivity. Qed.

Lemma validate_eq d d' e e' :
  (validate d e).2 = (validate d' e').2 → validate d e = validate d' e'.
Proof.
  intros H. apply injective_projections; [|done].
  by rewrite !validate_fst, H.
Qed.

Lemma validate_ext d d' e e' :
  (∀ f, (validate d e).2 !! key f = (validate d' e').2 !! key f) →
  (validate d e).2 = (validate d' e').2.
Proof.
  intros H. apply map_eq. intros k.
  destruct (key_cases k) as [[f ->] | Hk]; [done|].
  by rewrite !validate_other.
Qed.

End Acceptance.

(** X8: a form is accepted exactly when its name, subject and message are
    not blank and its email value matches the pattern.  (A value that
    matches is never blank, so the email needs no separate condition.) *)
Theorem validate_true_iff (d : ContactFormData) (e : Errors) :
  (validate d e).1 = true ↔
  ¬ blank (name d) ∧ matches_email_pattern (email d) ∧
  ¬ blank (subject d) ∧ ¬ blank (message d).
Proof.
  rewrite validate_ok. split.
  - intros He.
    pose proof (validate_name d e) as Hn. pose proof (validate_email d e) as Hm.
    pose proof (validate_subject d e) as Hs. pose proof (validate_message d e) as Hg.
    rewrite He, lookup_empty in Hn, Hm, Hs, Hg.
    destruct (truthy (trim (name d))) eqn:H1; [|done].
    destruct (truthy (trim (email d))) eqn:H2; [|done].
    destruct (test email_re (email d)) eqn:H3; [|done].
    destruct (truthy (trim (subject d))) eqn:H4; [|done].
    destruct (truthy (trim (message d))) eqn:H5; [|done].
    by rewrite <- !truthy_trim_not_blank, <- test_email_re.
  - intros (Hn & Hm & Hs & Hg). apply validate_empty. intros f msg Hf.
    destruct f; simpl in Hf.
    + destruct Hf as [Hf%trim_nil _]. done.
    + destruct Hf as [[Hf%trim_nil _] | (_ & Hf & _)]; [|done].
      by apply matches_not_blank in Hm.
    + destruct Hf as [Hf%trim_nil _]. done.
    + destruct Hf as [Hf%trim_nil _]. done.
Qed.

(** A value made of white space only is treated like the empty string:
    replacing a field by a blank value or by "" gives the same validation
    outcome, whatever the field (tabs, line breaks and no-break spaces
    included). *)
Theorem blank_like_empty (d : ContactFormData) (f : Field) (v : jsstring)
    (e : Errors) :
  blank v → validate (set_field d f v) e = validate (set_field d f []) e.
Proof.
  intros Hv%truthy_trim_blank.
  apply validate_eq, validate_ext. intros g.
  destruct f, g; cbn [key];
    rewrite ?validate_name, ?validate_email, ?validate_subject, ?validate_message;
    cbn [set_field name email subject message]; by rewrite ?Hv.
Qed.

Lemma blank_like_empty_witness :
  validate (set_field form_complete FMessage [9; 32; 10; 160; 8202]) ∅ =
  validate (set_field form_complete FMessage []) ∅.
Proof.
  apply blank_like_empty. unfold blank.
  repeat constructor.
Defined.

Section Render.

Variable cn : list jsstring -> jsstring.

Implicit Types (s : State) (f : Field).

Lemma render_error_reachable s f :
  reachable s → control_error (render_control cn s f) = errors s !! key f.
Proof.
  intros Hs. cbn [render_control control_error].
  destruct (errors s !! key f) as [m|] eqn:Hf; [|done].
  by rewrite (reachable_errors_truthy s (key f) m).
Qed.

(** X9: what is rendered beside a control is truthful.  In every reachable
    state the paragraph shown after a control is the entry of the error
    object for that control; when shown, it is the message with which the
    displayed value fails its rule and the control carries the flagged class
    list; when absent, the control carries the plain one. *)
Theorem render_truthful s f :
  reachable s →
  control_value (render_control cn s f) = get_field (formData s) f ∧
  control_error (render_control cn s f) = errors s !! key f ∧
  (∀ msg, control_error (render_control cn s f) = Some msg →
          fails_with f (formData s) msg ∧
          control_className (render_control cn s f) = cn [class_base; class_flagged]) ∧
  (control_error (render_control cn s f) = None →
   control_className (render_control cn s f) = cn [class_base; class_plain]).
Proof.
  intros Hs. split; [done|]. split; [by apply render_error_reachable|].
  rewrite render_error_reachable by done.
  cbn [render_control control_className]. split.
  - intros msg Hm. split.
    + by apply validate_field with (e := errors s), reachable_errors_current.
    + rewrite Hm. cbn [truthy_prop].
      by rewrite (reachable_errors_truthy s (key f) msg).
  - by intros ->.
Qed.

(** X10: a refused submission never fails silently: afterwards at least one
    control shows a paragraph, and that paragraph is the message with which
    the control's value fails its rule. *)
Theorem refused_shows_error s :
  (validate (formData s) (errors s)).1 = false →
  ∃ f msg,
    control_error (render_control cn (step s Submit).1 f) = Some msg ∧
    fails_with f (formData s) msg.
Proof.
  intros Hok.
  assert (Hne : (validate (formData s) (errors s)).2 ≠ ∅).
  { intros He%validate_ok. congruence. }
  apply map_choose in Hne as (k & msg & Hk).
  pose proof (validate_truthy _ _ _ _ Hk) as Ht.
  apply validate_lookup in Hk as Hf. destruct Hf as (f & -> & Hf).
  exists f, msg. split; [|done].
  rewrite step_submit, Hok. cbn [fst render_control control_error errors].
  by rewrite Hk, Ht.
Qed.

End Render.

Lemma render_truthful_witness :
  control_error (render_control (λ l, concat l) state_all_flagged FEmail)
    = Some (lit "Email is required") ∧
  control_className (render_control (λ l, concat l) state_all_flagged FEmail)
    = class_base ++ class_flagged.
Proof.
  destruct (render_truthful (λ l, concat l) state_all_flagged FEmail)
    as (_ & Herr & Hshown & _).
  { apply reachable_step, reachable_initial. }
  assert (H : control_error (render_control (λ l, concat l) state_all_flagged FEmail)
              = Some (lit "Email is required")) by (by vm_compute).
  split; [done|].
  destruct (Hshown _ H) as [_ ->]. by vm_compute.
Defined.

Lemma refused_shows_error_witness :
  ∃ f msg,
    control_error (render_control (λ l, concat l)
                     (step state_incomplete Submit).1 f) = Some msg ∧
    fails_with f (formData state_incomplete) msg.
Proof.
  apply (refused_shows_error (λ l, concat l) state_incomplete). by vm_compute.
Defined.

Section Select.

Implicit Types (s : State) (evs : list event).

Lemma step_subject_listed s ev :
  control_event ev →
  subject (formData s) ∈ subject_options →
  subject (formData (step s ev).1) ∈ subject_options.
Proof.
  intros Hev Hs. destruct ev as [f v|].
  - rewrite step_change. cbn [fst formData]. by destruct f.
  - rewrite step_submit. destruct (validate _ _).1; cbn [fst formData subject]; [|done].
    unfold subject_options. apply list_elem_of_here.
Qed.

Lemma run_subject_listed s evs :
  Forall control_event evs →
  subject (formData s) ∈ subject_options →
  subject (formData (run s evs).1) ∈ subject_options.
Proof.
  revert s. induction evs as [|ev evs IH]; intros s Hevs Hs; [done|].
  inversion_clear Hevs as [|? ? Hev Hevs']. rewrite run_cons. cbn [fst].
  apply IH; [done|]. by apply step_subject_listed.
Qed.

Lemma listed_subject_rule (v : jsstring) :
  v ∈ subject_options → (truthy (trim v) = false ↔ v = []).
Proof.
  unfold subject_options. rewrite !elem_of_cons, elem_of_nil.
  intros [->|[->|[->|[->|[->|[->|[]]]]]]]; by vm_compute.
Qed.

End Select.

(** X11: as long as the change events of the subject control carry the
    value of one of its options, the subject held by the component is always
    one of the options, and a validation pass flags the subject exactly when
    the placeholder option (the empty value) is the one selected. *)
Theorem subject_stays_listed (evs : list event) :
  Forall control_event evs →
  subject (formData (run initial evs).1) ∈ subject_options ∧
  ((validate (formData (run initial evs).1) (errors (run initial evs).1)).2
     !! "subject" = Some (lit "Subject is required") ↔
   subject (formData (run initial evs).1) = []).
Proof.
  intros Hevs.
  assert (Hin : subject (formData (run initial evs).1) ∈ subject_options).
  { apply run_subject_listed; [done|]. apply list_elem_of_here. }
  split; [done|]. rewrite validate_subject.
  apply listed_subject_rule in Hin.
  destruct (truthy (trim (subject (formData (run initial evs).1)))).
  - split; [done|]. intros H. apply Hin in H. done.
  - split; [|done]. intros _. by apply Hin.
Qed.

Lemma subject_stays_listed_witness :
  subject (formData (run initial
             [Change FSubject (lit "tour"); Change FName (lit "Li"); Submit]).1)
    ∈ subject_options.
Proof.
  apply (subject_stays_listed
           [Change FSubject (lit "tour"); Change FName (lit "Li"); Submit]).
  repeat constructor.
Defined.

Section Surrounding.

Implicit Types (s u v w : jsstring) (c : N).

Lemma trimStart_split s : ∃ pre, s = pre ++ trimStart s ∧ blank pre.
Proof.
  induction s as [|c s (pre & Hs & Hpre)]; [by exists []; split; [|constructor]|].
  simpl. destruct (is_space c) eqn:Hc.
  - exists (c :: pre). split; [by rewrite Hs at 1|by constructor].
  - exists []. split; [done|constructor].
Qed.

Lemma trimEnd_split s : ∃ post, s = trimEnd s ++ post ∧ blank post.
Proof.
  destruct (trimStart_split (reverse s)) as (pre & Hs & Hpre).
  exists (reverse pre). split; [|by apply blank_reverse].
  unfold trimEnd. rewrite <- reverse_app, <- Hs. by rewrite reverse_involutive.
Qed.

(** [trim] removes a blank prefix and a blank suffix, nothing else. *)
Lemma trim_split s : ∃ pre post, s = pre ++ trim s ++ post ∧ blank pre ∧ blank post.
Proof.
  destruct (trimStart_split s) as (pre & Hs & Hpre).
  destruct (trimEnd_split (trimStart s)) as (post & Ht & Hpost).
  exists pre, post. unfold trim. by rewrite <- Ht.
Qed.

Lemma blank_app u v : blank (u ++ v) ↔ blank u ∧ blank v.
Proof. apply Forall_app. Qed.

Lemma blank_trim s : blank (trim s) ↔ blank s.
Proof.
  split.
  - intros Hb. destruct (trim_split s) as (pre & post & Hs & Hpre & Hpost).
    rewrite Hs. by rewrite !blank_app.
  - intros Hb%trim_nil. rewrite Hb. constructor.
Qed.

Lemma test_email_space_cons c s :
  is_space c = true → test email_re (c :: s) = test email_re s.
Proof.
  intros Hc. cbn [test email_re match_here match_plus atom_matches].
  by rewrite Hc.
Qed.

Lemma test_email_blank_prefix pre s :
  blank pre → test email_re (pre ++ s) = test email_re s.
Proof.
  induction 1 as [|c pre Hc _ IH]; [done|].
  by rewrite <- app_comm_cons, test_email_space_cons.
Qed.

Lemma matches_space_snoc s c :
  is_space c = true → matches_email_pattern (s ++ [c]) → matches_email_pattern s.
Proof.
  intros Hc (pre & w & post & Hw & Heq).
  destruct post as [|x post _] using rev_ind.
  - rewrite app_nil_r in Heq.
    pose proof (email_shape_nonspace w Hw) as Hall.
    destruct Hw as (a & b & c' & _ & _ & [Hc' _] & ->).
    destruct c' as [|y c' _] using rev_ind; [done|].
    rewrite !app_assoc in Heq. apply app_inj_tail in Heq as [_ ->].
    rewrite !Forall_app in Hall. destruct Hall as (_ & _ & _ & _ & _ & Hy).
    inversion Hy; congruence.
  - rewrite !app_assoc in Heq. apply app_inj_tail in Heq as [-> _].
    exists pre, w, post. by rewrite <- !app_assoc.
Qed.

Lemma matches_blank_suffix s post :
  blank post → matches_email_pattern (s ++ post) ↔ matches_email_pattern s.
Proof.
  intros Hpost. split.
  - revert Hpost. induction post as [|c post IH] using rev_ind; intros Hpost.
    + by rewrite app_nil_r.
    + apply blank_app in Hpost as [Hpost Hc]. inversion_clear Hc as [|? ? Hc' _].
      rewrite app_assoc. intros H%matches_space_snoc; [|done]. by apply IH.
  - intros (pre & w & post' & Hw & ->). exists pre, w, (post' ++ post).
    by rewrite <- !app_assoc.
Qed.

(** The email test gives the same answer on a value and on its trimmed
    form. *)
Lemma test_email_trim s : test email_re (trim s) = test email_re s.
Proof.
  destruct (trim_split s) as (pre & post & Hs & Hpre & Hpost).
  rewrite Hs at 2. rewrite test_email_blank_prefix by done.
  apply eq_true_iff_eq. rewrite !test_email_re. symmetry.
  by apply matches_blank_suffix.
Qed.

Lemma truthy_trim_trim s : truthy (trim (trim s)) = truthy (trim s).
Proof.
  apply eq_true_iff_eq. rewrite !truthy_true, !trim_nil. by rewrite blank_trim.
Qed.

End Surrounding.

(** X12: validation does not see white space around a value: a field holding
    [v] and the same field holding [trim v] give the same validation outcome,
    for each of the four fields (for the email this includes the pattern
    test, which is run on the value as typed). *)
Theorem validate_ignores_surrounding_space (d : ContactFormData) (f : Field)
    (v : jsstring) (e : Errors) :
  validate (set_field d f v) e = validate (set_field d f (trim v)) e.
Proof.
  apply validate_eq, validate_ext. intros g.
  destruct f, g; cbn [key];
    rewrite ?validate_name, ?validate_email, ?validate_subject, ?validate_message;
    cbn [set_field name email subject message];
    by rewrite ?truthy_trim_trim, ?test_email_trim.
Qed.

Section EmailPositions.

Lemma nonspace_run_length (u : jsstring) : nonspace_run u → (0 < length u)%nat.
Proof. intros [Hu _]. destruct u; [done|simpl; lia]. Qed.

End EmailPositions.

(** X13: what an accepted email value must look like.  When a validation
    pass leaves no email entry, the value holds an '@' that is not its first
    code unit and, at least two positions later, a '.' that is not its last
    code unit; in particular it has at least five code units. *)
Theorem accepted_email_positions (d : ContactFormData) (e : Errors) :
  (validate d e).2 !! "email" = None →
  ∃ i j : nat,
    email d !! i = Some 64 ∧ email d !! j = Some 46 ∧
    (0 < i ∧ i + 1 < j ∧ j + 1 < length (email d))%nat.
Proof.
  rewrite validate_email. intros H.
  destruct (truthy (trim (email d))); [|done].
  destruct (test email_re (email d)) eqn:Hre; [|done].
  apply test_email_re in Hre as (pre & w & post & (a & b & c & Ha & Hb & Hc & ->) & ->).
  apply nonspace_run_length in Ha, Hb, Hc.
  exists (length (pre ++ a)), (length (pre ++ a ++ [64] ++ b)).
  split; [|split].
  - replace (pre ++ (a ++ [64] ++ b ++ [46] ++ c) ++ post)
      with ((pre ++ a) ++ 64 :: (b ++ [46] ++ c ++ post))
      by (by rewrite <- !app_assoc).
    by apply list_lookup_middle.
  - replace (pre ++ (a ++ [64] ++ b ++ [46] ++ c) ++ post)
      with ((pre ++ a ++ [64] ++ b) ++ 46 :: (c ++ post))
      by (by rewrite <- !app_assoc).
    by apply list_lookup_middle.
  - rewrite !length_app. simpl. lia.
Qed.

Lemma accepted_email_positions_witness :
  ∃ i j : nat,
    email form_complete !! i = Some 64 ∧ email form_complete !! j = Some 46 ∧
    (0 < i ∧ i + 1 < j ∧ j + 1 < length (email form_complete))%nat.
Proof.
  apply (accepted_email_positions form_complete ∅). by vm_compute.
Defined.
